(** * Locally weighted regression ([lowess.py]): a shallow embedding

    The module [lowess.py] offers two entry points, [lowessNd] and [lowess].
    Both are straight-line numpy programs: they build arrays by
    broadcasting, index one of them, and hand a small linear system to
    [scipy.linalg.solve].  The embedding keeps that shape:

    - floating-point numbers are an abstract scalar type [T] with the
      operations the code uses (class [Scalar]); algebraic laws are only
      assumed where a statement needs them (class [ScalarLaws]);
    - a 1-D array is a [list T], a 2-D array is a list of rows, and the
      elementwise operators follow numpy's broadcasting rule;
    - a Python exception is a value of [exn], and code that may raise lives
      in the [result] monad;
    - [scipy.linalg.solve] is a parameter [solve] of the two functions;
    - the exact rationals [Q] give an executable instance, and binary64
      floating-point numbers a second one. *)

From Stdlib Require Import List ZArith QArith Qround Qabs Bool Arith Lia.
From Stdlib Require PrimFloat SpecFloat FloatOps.
Import ListNotations.

Set Implicit Arguments.
Local Open Scope nat_scope.

(** ** Exceptions and results *)

Inductive exn : Type :=
| IndexError
| ValueError
| LinAlgError
| OtherError.

Inductive result (A : Type) : Type :=
| Ok (a : A)
| Raise (e : exn).

Arguments Ok {A} a.
Arguments Raise {A} e.

Definition bind {A B : Type} (c : result A) (k : A -> result B) : result B :=
  match c with
  | Ok a => k a
  | Raise e => Raise e
  end.

Notation "x <- c ;; k" := (bind c (fun x => k))
  (at level 61, c at next level, right associativity).

(** A list comprehension whose body may raise: elements are evaluated from
    left to right and the first exception aborts the comprehension. *)
Fixpoint mapM {A B : Type} (f : A -> result B) (l : list A) : result (list B) :=
  match l with
  | [] => Ok []
  | a :: l' => b <- f a ;; bs <- mapM f l' ;; Ok (b :: bs)
  end.

(** [try: c except: handler] with a bare [except]: every exception is
    caught. *)
Definition try_except {A : Type} (c : result A) (handler : A) : A :=
  match c with
  | Ok a => a
  | Raise _ => handler
  end.

(** Python subscript [l[r]] on the first axis: a negative index counts from
    the end, anything outside [-len, len) raises [IndexError]. *)
Definition py_index {A : Type} (l : list A) (r : Z) : result A :=
  let n := Z.of_nat (length l) in
  let k := (if r <? 0 then r + n else r)%Z in
  if ((0 <=? k) && (k <? n))%Z then
    match nth_error l (Z.to_nat k) with
    | Some a => Ok a
    | None => Raise IndexError
    end
  else Raise IndexError.

(** ** Scalars *)

Class Scalar (T : Type) : Type := {
  zero : T;
  one : T;
  add : T -> T -> T;
  sub : T -> T -> T;
  mul : T -> T -> T;
  div : T -> T -> T;
  abs : T -> T;
  sqrt : T -> T;
  ltb : T -> T -> bool;
  (** [int(np.ceil(a))] *)
  ceil : T -> Z;
  (** conversion of a Python [int] in mixed arithmetic *)
  of_int : Z -> T
}.

(** The laws of exact arithmetic that some statements rely on. *)
Class ScalarLaws (T : Type) `{Scalar T} : Prop := {
  add_zero_l : forall a : T, add zero a = a;
  mul_comm : forall a b : T, mul a b = mul b a;
  mul_assoc : forall a b c : T, mul (mul a b) c = mul a (mul b c);
  mul_one_r : forall a : T, mul a one = a;
  sqrt_square : forall a : T, sqrt (mul a a) = abs a
}.

Arguments ScalarLaws T {_}.

(** ** A fragment of numpy *)

(** A 1-D array is a list of scalars, a 2-D array a list of rows. *)
Abbreviation vector T := (list T) (only parsing).
Abbreviation matrix T := (list (list T)) (only parsing).

Section Numpy.
Context {T : Type} `{Scalar T}.

Definition nrows (m : matrix T) : nat := length m.
Definition ncols (m : matrix T) : nat :=
  match m with
  | [] => 0
  | row :: _ => length row
  end.

Definition tabulate {A : Type} (n : nat) (f : nat -> A) : list A :=
  map f (seq 0 n).

(** Broadcasting: two extents are compatible when they agree or one of
    them is 1; the result takes the other extent. *)
Definition compat (a b : nat) : bool := (a =? b) || (a =? 1) || (b =? 1).
Definition bdim (a b : nat) : nat := if a =? 1 then b else a.

(** Entry [(i, j)] of [m] once stretched along its axes of extent 1. *)
Definition bget (m : matrix T) (i j : nat) : T :=
  nth (if ncols m =? 1 then 0 else j)
      (nth (if nrows m =? 1 then 0 else i) m []) zero.

(** [a op b] for 2-D operands; a shape mismatch raises [ValueError]. *)
Definition broadcast (op : T -> T -> T) (a b : matrix T) : result (matrix T) :=
  if compat (nrows a) (nrows b) && compat (ncols a) (ncols b) then
    Ok (tabulate (bdim (nrows a) (nrows b)) (fun i =>
          tabulate (bdim (ncols a) (ncols b)) (fun j =>
            op (bget a i j) (bget b i j))))
  else Raise ValueError.

(** A 1-D operand of a 2-D operation is read as a single row. *)
Definition as_row (v : vector T) : matrix T := [v].

(** [m - s] for a Python scalar [s]. *)
Definition sub_scalar (m : matrix T) (s : T) : matrix T :=
  map (map (fun a => sub a s)) m.

(** [np.abs(m)] *)
Definition np_abs (m : matrix T) : matrix T := map (map abs) m.

Definition sum_list (l : list T) : T := fold_left add l zero.

(** [np.sum(m)]: the sum of all entries. *)
Definition np_sum (m : matrix T) : T := sum_list (concat m).

(** [np.linalg.norm(m, axis=1)]: [sqrt(add.reduce(m * m, axis=1))]. *)
Definition norm_axis1 (m : matrix T) : vector T :=
  map (fun row => sqrt (sum_list (map (fun a => mul a a) row))) m.

(** [np.array(v, ndmin=2).T]: shape [(1, N)] transposed to [(N, 1)]. *)
Definition column (v : vector T) : matrix T := map (fun a => [a]) v.

Fixpoint insert (a : T) (l : list T) : list T :=
  match l with
  | [] => [a]
  | b :: l' => if ltb b a then b :: insert a l' else a :: l
  end.

Fixpoint sort (l : list T) : list T :=
  match l with
  | [] => []
  | a :: l' => insert a (sort l')
  end.

(** [np.sort(m)]: the default [axis=-1] sorts along the last axis, that
    is, every row on its own. *)
Definition np_sort (m : matrix T) : matrix T := map sort m.

(** [np.hstack([np.ones((n, 1)), x])] *)
Definition hstack_ones (x : matrix T) : matrix T := map (cons one) x.

(** [m[:, [i]]]: column [i], kept 2-D with shape [(N, 1)]. *)
Definition take_col (m : matrix T) (i : nat) : matrix T :=
  map (fun row => [nth i row zero]) m.

(** [np.zeros(n)] *)
Definition zeros (n : nat) : vector T := repeat zero n.

Definition cube (a : T) : T := mul (mul a a) a.

(** Modelled from the spec: [kernels.tricube], which is not part of the
    sources at hand; the glossary gives [w(u) = (1 - |u|^3)^3] for
    [|u| < 1] and [0] otherwise. *)
Definition tricube (u : T) : T :=
  if ltb (abs u) one then cube (sub one (cube (abs u))) else zero.

(** ** The stages shared by both entry points *)

(** [r = int(np.ceil(bandwidth * n))] *)
Definition bandwidth_rank (bandwidth : T) (n : nat) : Z :=
  ceil (mul bandwidth (of_int (Z.of_nat n))).

(** [h = np.sort(d)[r]] *)
Definition radius (d : matrix T) (r : Z) : result (vector T) :=
  py_index (np_sort d) r.

(** [w = kernel(d / h)], the kernel acting on every entry. *)
Definition kernel_weights (kernel : T -> T) (d : matrix T) (h : vector T)
  : result (matrix T) :=
  dh <- broadcast div d (as_row h) ;;
  Ok (map (map kernel) dh).

(** ** lowessNd *)

(** [dist = np.linalg.norm(x - x_star, axis=1)] *)
Definition lowessNd_dist (x_star : vector T) (x : matrix T) : result (vector T) :=
  diff <- broadcast sub x (as_row x_star) ;;
  Ok (norm_axis1 diff).

(** [b = np.array([np.sum(y * w * x_ext[:, [i]]) for i in rng])] *)
Definition lowessNd_b (y w x_ext : matrix T) (rng : list nat) : result (vector T) :=
  mapM (fun i =>
          yw <- broadcast mul y w ;;
          ywx <- broadcast mul yw (take_col x_ext i) ;;
          Ok (np_sum ywx)) rng.

(** [A = np.array([[np.sum(w * x_ext[:, [i]] * x_ext[:, [j]])
                    for i in rng] for j in rng])] *)
Definition lowessNd_A (w x_ext : matrix T) (rng : list nat) : result (matrix T) :=
  mapM (fun j =>
          mapM (fun i =>
                  wx <- broadcast mul w (take_col x_ext i) ;;
                  wxx <- broadcast mul wx (take_col x_ext j) ;;
                  Ok (np_sum wxx)) rng) rng.

Section EntryPoints.
(** [scipy.linalg.solve(A, b)] *)
Variable solve : matrix T -> vector T -> result (vector T).

(** [x] has shape [(N, M)], [x_star] is a 1-D array and [y] a 2-D array;
    [kernel] acts entry by entry.  The flag [radial] is only mentioned in
    a commented-out branch. *)
Definition lowessNd (x_star : vector T) (x y : matrix T) (kernel : T -> T)
           (bandwidth : T) (radial : bool) : result (vector T * vector T) :=
  let n := nrows x in
  let dim := ncols x in
  dist <- lowessNd_dist x_star x ;;
  let d := column dist in
  let r := bandwidth_rank bandwidth n in
  h <- radius d r ;;
  w <- kernel_weights kernel d h ;;
  let x_ext := hstack_ones x in
  let rng := seq 0 (dim + 1) in
  b <- lowessNd_b y w x_ext rng ;;
  A <- lowessNd_A w x_ext rng ;;
  let beta := try_except (solve A b) (zeros (n + 1)) in
  Ok (beta, dist).

(** ** lowess *)

(** [d = np.abs(x - x_star)], the value that the next line replaces. *)
Definition lowess_abs_dist (x_star : T) (x : matrix T) : matrix T :=
  np_abs (sub_scalar x x_star).

(** [d = np.array(np.linalg.norm(x - x_star, axis=1), ndmin=2).T] *)
Definition lowess_dist (x_star : T) (x : matrix T) : matrix T :=
  column (norm_axis1 (sub_scalar x x_star)).

(** [b = np.array([np.sum(w * y), np.sum(w * y * x)])] *)
Definition lowess_b (w x y : matrix T) : result (vector T) :=
  wy <- broadcast mul w y ;;
  let b0 := np_sum wy in
  wy' <- broadcast mul w y ;;
  wyx <- broadcast mul wy' x ;;
  let b1 := np_sum wyx in
  Ok [b0; b1].

(** [A = np.array([[np.sum(w), np.sum(w * x)],
                   [np.sum(w * x), np.sum(w * x * x)]])] *)
Definition lowess_A (w x : matrix T) : result (matrix T) :=
  let a00 := np_sum w in
  wx <- broadcast mul w x ;;
  let a01 := np_sum wx in
  wx' <- broadcast mul w x ;;
  let a10 := np_sum wx' in
  wx'' <- broadcast mul w x ;;
  wxx <- broadcast mul wx'' x ;;
  let a11 := np_sum wxx in
  Ok [[a00; a01]; [a10; a11]].

(** [x_star] is a Python scalar; [x] is a 2-D array, as the reduction
    along [axis=1] requires, so [N] scalar predictors are an [(N, 1)]
    column. *)
Definition lowess (x_star : T) (x y : matrix T) (bandwidth : T)
  : result (T * T * matrix T) :=
  let n := length x in
  let r := bandwidth_rank bandwidth n in
  let d := lowess_abs_dist x_star x in
  let d := lowess_dist x_star x in
  h <- radius d r ;;
  w <- kernel_weights tricube d h ;;
  b <- lowess_b w x y ;;
  A <- lowess_A w x ;;
  beta <- solve A b ;;
  slope <- py_index beta 1 ;;
  intercept <- py_index beta 0 ;;
  Ok (slope, intercept, w).
End EntryPoints.

(** ** Vocabulary of the specification *)

(** The Euclidean norm of a vector. *)
Definition euclid_norm (v : vector T) : T :=
  sqrt (sum_list (map (fun a => mul a a) v)).

(** Componentwise difference of two vectors of equal length. *)
Definition vsub (u v : vector T) : vector T :=
  map (fun p => sub (fst p) (snd p)) (combine u v).

(** The [r]-th smallest entry (0-indexed) of a distance vector. *)
Definition rth_smallest (dist : vector T) (r : nat) : T :=
  nth r (sort dist) zero.

(** [sum_i f i] for [i = 0 .. n-1]. *)
Definition sum_upto (n : nat) (f : nat -> T) : T :=
  sum_list (tabulate n f).

(** Entry [(i, k)] of the design matrix: a leading column of ones, then
    the predictor columns. *)
Definition design (x : matrix T) (i k : nat) : T :=
  match k with
  | O => one
  | S k' => nth k' (nth i x []) zero
  end.

(** A 2-D array with [n] rows of [m] entries each. *)
Definition has_shape (n m : nat) (a : matrix T) : Prop :=
  length a = n /\ Forall (fun row => length row = m) a.

(** [b] and [A] are the weighted normal equations of [n] observations
    with design matrix [X] of [m + 1] columns:
    [b[k] = sum_i weight[i] * response[i] * X[i,k]] and
    [A[k,l] = sum_i weight[i] * X[i,k] * X[i,l]]. *)
Definition is_normal_system (n m : nat) (weight response : nat -> T)
           (X : nat -> nat -> T) (b : vector T) (A : matrix T) : Prop :=
  length b = m + 1 /\
  has_shape (m + 1) (m + 1) A /\
  forall k, k <= m ->
    nth k b zero =
      sum_upto n (fun i => mul (mul (weight i) (response i)) (X i k)) /\
    forall l, l <= m ->
      nth l (nth k A []) zero =
        sum_upto n (fun i => mul (mul (weight i) (X i k)) (X i l)).

(** The same system with the factors of [A] in the order in which
    [lowessNd] multiplies them:
    [A[k,l] = sum_i (weight[i] * X[i,l]) * X[i,k]]. *)
Definition is_code_normal_system (n m : nat) (weight response : nat -> T)
           (X : nat -> nat -> T) (b : vector T) (A : matrix T) : Prop :=
  length b = m + 1 /\
  has_shape (m + 1) (m + 1) A /\
  forall k, k <= m ->
    nth k b zero =
      sum_upto n (fun i => mul (mul (weight i) (response i)) (X i k)) /\
    forall l, l <= m ->
      nth l (nth k A []) zero =
        sum_upto n (fun i => mul (mul (weight i) (X i l)) (X i k)).

(** [A[k,l] == A[l,k]] for all indices up to [m]. *)
Definition symmetric_upto (m : nat) (A : matrix T) : Prop :=
  forall k l, k <= m -> l <= m ->
    nth l (nth k A []) zero = nth k (nth l A []) zero.
End Numpy.

(** ** The executable instance over exact rationals *)

Local Open Scope Q_scope.

(** Square root on [Q]: exact on squares of rationals (all that the
    examples below meet), rounded down componentwise elsewhere. *)
Definition Qsqrt (q : Q) : Q := Z.sqrt (Qnum q) # Pos.sqrt (Qden q).

Definition Qltb (a b : Q) : bool := negb (Qle_bool b a).

#[export] Instance Q_scalar : Scalar Q := {
  zero := 0%Q;
  one := 1%Q;
  add := Qplus;
  sub := Qminus;
  mul := Qmult;
  div := Qdiv;
  abs := Qabs;
  sqrt := Qsqrt;
  ltb := Qltb;
  ceil := Qceiling;
  of_int := inject_Z
}.

(** A reference model of [scipy.linalg.solve] on [Q]: Gaussian elimination
    on the augmented rows.  A non-square [A] or a right-hand side of the
    wrong length raises [ValueError]; a column without pivot raises
    [LinAlgError] ("Matrix is singular"). *)
Fixpoint pick_pivot (rows : list (list Q)) : option (list Q * list (list Q)) :=
  match rows with
  | [] => None
  | row :: rest =>
      if Qeq_bool (hd 0%Q row) 0 then
        match pick_pivot rest with
        | Some (p, others) => Some (p, row :: others)
        | None => None
        end
      else Some (row, rest)
  end.

Definition dot (u v : list Q) : Q :=
  fold_left Qplus (map (fun p => (fst p * snd p)%Q) (combine u v)) 0%Q.

Fixpoint gauss (n : nat) (rows : list (list Q)) : option (list Q) :=
  match n with
  | O => Some []
  | S n' =>
      match pick_pivot rows with
      | None => None
      | Some (p, others) =>
          let a := hd 0%Q p in
          let p' := map (fun c => (c / a)%Q) (tl p) in
          let reduce q :=
            map (fun qp => (fst qp - hd 0%Q q * snd qp)%Q) (combine (tl q) p') in
          match gauss n' (map reduce others) with
          | None => None
          | Some xs => Some (Qred (last p' 0%Q - dot (removelast p') xs) :: xs)
          end
      end
  end.

Definition gauss_solve (A : list (list Q)) (b : list Q) : result (list Q) :=
  let n := length A in
  if forallb (fun row => length row =? n) A && (length b =? n) then
    match gauss n (map (fun rb => fst rb ++ [snd rb]) (combine A b)) with
    | Some beta => Ok beta
    | None => Raise LinAlgError
    end
  else Raise ValueError.

(** Concrete data for the examples. *)
Definition Qcol (l : list Z) : list (list Q) := column (map inject_Z l).

(** ** The executable instance over binary64 numbers *)

(** [int(np.ceil(f))] of a finite [f], read off its mantissa and exponent.
    Python's [int] raises on an infinity and on a NaN; the conversion is
    not applied to one below. *)
Definition float_ceil (f : PrimFloat.float) : Z :=
  match FloatOps.Prim2SF f with
  | SpecFloat.S754_finite s m e =>
      if (0 <=? e)%Z then
        (if s then - (Z.pos m * 2 ^ e) else Z.pos m * 2 ^ e)%Z
      else
        let q := (2 ^ (- e))%Z in
        if s then (- (Z.pos m / q))%Z else ((Z.pos m + q - 1) / q)%Z
  | _ => 0%Z
  end.

(** The binary64 number nearest to an integer. *)
Definition float_of_Z (z : Z) : PrimFloat.float :=
  FloatOps.SF2Prim
    (SpecFloat.binary_normalize FloatOps.prec FloatOps.emax z 0 false).

#[export] Instance binary64_scalar : Scalar PrimFloat.float := {
  zero := PrimFloat.zero;
  one := PrimFloat.one;
  add := PrimFloat.add;
  sub := PrimFloat.sub;
  mul := PrimFloat.mul;
  div := PrimFloat.div;
  abs := PrimFloat.abs;
  sqrt := PrimFloat.sqrt;
  ltb := PrimFloat.ltb;
  ceil := float_ceil;
  of_int := float_of_Z
}.

(** The binary64 number nearest to [p / q], as the literals [0.1],
    [0.2], [0.3] of Python are for [1/10], [2/10], [3/10]. *)
Definition float_ratio (p q : Z) : PrimFloat.float :=
  PrimFloat.div (float_of_Z p) (float_of_Z q).

(** * Properties *)

Local Open Scope nat_scope.
Unset Implicit Arguments.

(** ** Lists and tabulation *)

Lemma tabulate_length (A : Type) (n : nat) (f : nat -> A) :
  length (tabulate n f) = n.
Proof. unfold tabulate. now rewrite length_map, length_seq. Qed.

Lemma tabulate_nth (A : Type) (n : nat) (f : nat -> A) (d : A) (i : nat) :
  i < n -> nth i (tabulate n f) d = f i.
Proof.
  intros Hi. unfold tabulate.
  rewrite (nth_indep _ d (f 0)) by now rewrite length_map, length_seq.
  rewrite map_nth, seq_nth; auto.
Qed.

Lemma tabulate_ext (A : Type) (n : nat) (f g : nat -> A) :
  (forall i, i < n -> f i = g i) -> tabulate n f = tabulate n g.
Proof.
  intros Hfg. unfold tabulate. apply map_ext_in.
  intros i Hi. apply in_seq in Hi. apply Hfg. lia.
Qed.

Lemma tabulate_map (A B : Type) (g : A -> B) (n : nat) (f : nat -> A) :
  map g (tabulate n f) = tabulate n (fun i => g (f i)).
Proof. unfold tabulate. now rewrite map_map. Qed.

Lemma list_tabulate (A : Type) (l : list A) (d : A) :
  l = tabulate (length l) (fun i => nth i l d).
Proof.
  apply (nth_ext _ _ d d).
  - now rewrite tabulate_length.
  - intros i Hi. now rewrite tabulate_nth.
Qed.

Lemma map_tabulate (A B : Type) (h : A -> B) (l : list A) (d : A) :
  map h l = tabulate (length l) (fun i => h (nth i l d)).
Proof.
  apply (nth_ext _ _ (h d) (h d)).
  - now rewrite length_map, tabulate_length.
  - intros i Hi. rewrite length_map in Hi.
    now rewrite map_nth, tabulate_nth.
Qed.


Lemma tabulate_one (A : Type) (f : nat -> A) : tabulate 1 f = [f 0].
Proof. reflexivity. Qed.

Lemma mapM_ok (A B : Type) (f : A -> result B) (g : A -> B) (l : list A) :
  (forall a, In a l -> f a = Ok (g a)) -> mapM f l = Ok (map g l).
Proof.
  induction l as [|a l IH]; intros Hf; simpl; [reflexivity|].
  rewrite (Hf a) by now left. simpl.
  rewrite IH by (intros; apply Hf; now right). reflexivity.
Qed.

(** ** Python subscripts *)

Lemma py_index_in_range (A : Type) (l : list A) (r : Z) (d : A) :
  (0 <= r < Z.of_nat (length l))%Z ->
  py_index l r = Ok (nth (Z.to_nat r) l d).
Proof.
  intros Hr. unfold py_index.
  destruct (Z.ltb_spec r 0); [lia|].
  destruct (Z.leb_spec 0 r); [|lia].
  destruct (Z.ltb_spec r (Z.of_nat (length l))); [|lia]. simpl.
  destruct (nth_error l (Z.to_nat r)) eqn:E.
  - now rewrite (nth_error_nth _ _ d E).
  - apply nth_error_None in E. lia.
Qed.

Lemma py_index_past_end (A : Type) (l : list A) (r : Z) :
  (Z.of_nat (length l) <= r)%Z -> py_index l r = Raise IndexError.
Proof.
  intros Hr. unfold py_index.
  destruct (Z.ltb_spec r 0); [lia|].
  destruct (Z.ltb_spec r (Z.of_nat (length l))); [lia|].
  now rewrite andb_false_r.
Qed.

Section Theory.
Context {T : Type} `{Scalar T}.

(** ** Columns *)

Lemma column_length (v : vector T) : length (column v) = length v.
Proof. unfold column. now rewrite length_map. Qed.

Lemma column_nth (v : vector T) (i : nat) :
  i < length v -> nth i (column v) [] = [nth i v zero].
Proof.
  intros Hi. unfold column.
  rewrite (nth_indep _ [] [zero]) by now rewrite length_map.
  now rewrite (map_nth (fun a => [a])).
Qed.

Lemma column_ncols (v : vector T) :
  ncols (column v) = if length v =? 0 then 0 else 1.
Proof. destruct v; reflexivity. Qed.

Lemma column_tabulate (n : nat) (f : nat -> T) :
  column (tabulate n f) = tabulate n (fun i => [f i]).
Proof. unfold column. apply tabulate_map. Qed.

Lemma np_sum_column (v : vector T) : np_sum (column v) = sum_list v.
Proof.
  unfold np_sum. f_equal.
  induction v as [|a v IH]; simpl; [reflexivity | now rewrite IH].
Qed.

(** Sorting along the last axis leaves an [(N, 1)] array as it is. *)
Lemma np_sort_column (v : vector T) : np_sort (column v) = column v.
Proof.
  unfold np_sort, column. rewrite map_map. now apply map_ext.
Qed.

Lemma radius_column (v : vector T) (r : Z) :
  radius (column v) r = py_index (column v) r.
Proof. unfold radius. now rewrite np_sort_column. Qed.

Lemma radius_column_in_range (v : vector T) (r : Z) :
  (0 <= r < Z.of_nat (length v))%Z ->
  radius (column v) r = Ok [nth (Z.to_nat r) v zero].
Proof.
  intros Hr. rewrite radius_column.
  rewrite (py_index_in_range _ _ _ []) by now rewrite column_length.
  rewrite column_nth by lia. reflexivity.
Qed.

Lemma radius_column_past_end (v : vector T) (r : Z) :
  (Z.of_nat (length v) <= r)%Z -> radius (column v) r = Raise IndexError.
Proof.
  intros Hr. rewrite radius_column.
  apply py_index_past_end. now rewrite column_length.
Qed.

(** ** Broadcasting *)

Lemma bget_column (v : vector T) (i : nat) :
  i < length v -> bget (column v) i 0 = nth i v zero.
Proof.
  intros Hi. unfold bget.
  replace (if ncols (column v) =? 1 then 0 else 0) with 0
    by now destruct (ncols (column v) =? 1).
  unfold nrows. rewrite column_length.
  destruct (Nat.eqb_spec (length v) 1) as [E|E].
  - assert (i = 0) by lia. subst i. now rewrite column_nth by lia.
  - now rewrite column_nth.
Qed.

Lemma bget_cell (a : T) (i j : nat) : bget [[a]] i j = a.
Proof. reflexivity. Qed.

Lemma bget_row (v : vector T) (i j : nat) :
  j < length v -> bget (as_row v) i j = nth j v zero.
Proof.
  intros Hj. unfold bget, as_row. simpl.
  destruct (Nat.eqb_spec (length v) 1) as [E|E]; [|reflexivity].
  now replace j with 0 by lia.
Qed.

Lemma shape_ncols (n m : nat) (a : matrix T) :
  has_shape n m a -> 0 < n -> ncols a = m.
Proof.
  intros [Hn Hm] Hpos. destruct a as [|row a]; simpl in *; [lia|].
  now inversion Hm.
Qed.

Lemma shape_row (n m : nat) (a : matrix T) (i : nat) :
  has_shape n m a -> i < n -> length (nth i a []) = m.
Proof.
  intros [Hn Hm] Hi. rewrite Forall_forall in Hm.
  apply Hm, nth_In. lia.
Qed.

Lemma bget_shape (n m : nat) (a : matrix T) (i j : nat) :
  has_shape n m a -> i < n -> j < m ->
  bget a i j = nth j (nth i a []) zero.
Proof.
  intros Ha Hi Hj. unfold bget, nrows.
  rewrite (shape_ncols n m a Ha) by lia. destruct Ha as [Hn _]. rewrite Hn.
  destruct (Nat.eqb_spec m 1), (Nat.eqb_spec n 1);
    repeat match goal with
           | E : ?k = 1, L : ?p < ?k |- _ => replace p with 0 by lia; clear L
           end; reflexivity.
Qed.

(** Two columns of the same length combine entry by entry. *)
Lemma broadcast_column (op : T -> T -> T) (u v : vector T) :
  length u = length v ->
  broadcast op (column u) (column v) =
  Ok (column (tabulate (length u)
                (fun i => op (nth i u zero) (nth i v zero)))).
Proof.
  intros Huv. unfold broadcast, nrows.
  rewrite !column_ncols, !column_length, <- Huv.
  unfold compat, bdim. rewrite !Nat.eqb_refl. simpl.
  replace (if length u =? 1 then length u else length u) with (length u)
    by now destruct (length u =? 1).
  f_equal. rewrite column_tabulate. apply tabulate_ext. intros i Hi.
  destruct (Nat.eqb_spec (length u) 0) as [E|E]; [lia|]. simpl.
  rewrite tabulate_one, !bget_column by lia. reflexivity.
Qed.

(** A column against a single cell: the cell is stretched over the rows. *)
Lemma broadcast_column_cell (op : T -> T -> T) (u : vector T) (a : T) :
  broadcast op (column u) [[a]] = Ok (column (map (fun c => op c a) u)).
Proof.
  unfold broadcast, nrows. rewrite column_ncols, column_length. simpl.
  unfold compat, bdim. simpl. rewrite !orb_true_r. simpl.
  f_equal.
  replace (if length u =? 1 then 1 else length u) with (length u)
    by now destruct (Nat.eqb_spec (length u) 1).
  rewrite (map_tabulate _ _ (fun c => op c a) u zero), column_tabulate.
  apply tabulate_ext. intros i Hi.
  destruct (Nat.eqb_spec (length u) 0) as [E|E]; [lia|]. simpl.
  rewrite tabulate_one, bget_column, bget_cell by lia. reflexivity.
Qed.

(** An [(N, M)] array against a vector of length [M]: the vector is
    stretched over the rows. *)
Lemma broadcast_rows (op : T -> T -> T) (n m : nat) (x : matrix T) (v : vector T) :
  has_shape n m x -> 0 < n -> length v = m ->
  broadcast op x (as_row v) =
  Ok (tabulate n (fun i => tabulate m (fun j =>
        op (nth j (nth i x []) zero) (nth j v zero)))).
Proof.
  intros Hx Hn Hv. unfold broadcast.
  rewrite (shape_ncols n m x Hx Hn). unfold nrows. simpl. rewrite Hv.
  destruct Hx as [Hlen Hrows]. rewrite Hlen.
  unfold compat, bdim. rewrite !Nat.eqb_refl. simpl. rewrite orb_true_r. simpl.
  replace (if n =? 1 then 1 else n) with n by now destruct (Nat.eqb_spec n 1).
  replace (if m =? 1 then m else m) with m by now destruct (m =? 1).
  f_equal. apply tabulate_ext. intros i Hi. apply tabulate_ext. intros j Hj.
  rewrite (bget_shape n m) by (auto; now split).
  rewrite bget_row by lia. reflexivity.
Qed.
End Theory.

(** ** The stages on column-shaped data *)

Section Stages.
Context {T : Type} `{Scalar T}.

Lemma norm_axis1_length (m : matrix T) : length (norm_axis1 m) = length m.
Proof. unfold norm_axis1. now rewrite length_map. Qed.

Lemma vsub_tabulate (m : nat) (u v : vector T) :
  length u = m -> length v = m ->
  vsub u v = tabulate m (fun j => sub (nth j u zero) (nth j v zero)).
Proof.
  intros Hu Hv. unfold vsub.
  apply (nth_ext _ _ (sub zero zero) (sub zero zero)).
  - rewrite length_map, length_combine, tabulate_length. lia.
  - intros j Hj. rewrite length_map, length_combine in Hj.
    rewrite tabulate_nth by lia.
    change (sub zero zero)
      with ((fun p : T * T => sub (fst p) (snd p)) (zero, zero)).
    rewrite map_nth, combine_nth by lia. reflexivity.
Qed.

Lemma lowessNd_dist_rows (n m : nat) (x_star : vector T) (x : matrix T) :
  has_shape n m x -> 0 < n -> length x_star = m ->
  lowessNd_dist x_star x =
  Ok (map (fun row => euclid_norm (vsub row x_star)) x).
Proof.
  intros Hx Hn Hs. unfold lowessNd_dist.
  rewrite (broadcast_rows sub n m) by assumption. simpl.
  f_equal. unfold norm_axis1. rewrite tabulate_map.
  rewrite (map_tabulate _ _ _ x []). destruct Hx as [Hlen Hrows].
  rewrite Hlen. apply tabulate_ext. intros i Hi. unfold euclid_norm.
  rewrite (vsub_tabulate m); auto.
  rewrite Forall_forall in Hrows. apply Hrows, nth_In. lia.
Qed.

Lemma kernel_weights_column (kernel : T -> T) (dist : vector T) (h0 : T) :
  kernel_weights kernel (column dist) [h0] =
  Ok (column (map (fun a => kernel (div a h0)) dist)).
Proof.
  unfold kernel_weights, as_row. rewrite broadcast_column_cell. simpl.
  unfold column. now rewrite !map_map.
Qed.

Lemma take_col_hstack (x : matrix T) (k : nat) :
  take_col (hstack_ones x) k =
  column (tabulate (length x) (fun i => design x i k)).
Proof.
  unfold take_col, hstack_ones. rewrite map_map.
  rewrite (map_tabulate _ _ _ x []), column_tabulate.
  apply tabulate_ext. intros i _. now destruct k.
Qed.

(** The product of two tabulated columns, summed. *)
Lemma sum_product_columns (n : nat) (f g : nat -> T) :
  (wx <- broadcast mul (column (tabulate n f)) (column (tabulate n g)) ;;
   Ok (np_sum wx)) = Ok (sum_upto n (fun i => mul (f i) (g i))).
Proof.
  rewrite broadcast_column by now rewrite !tabulate_length.
  simpl. rewrite np_sum_column, tabulate_length. unfold sum_upto.
  do 2 f_equal. apply tabulate_ext. intros i Hi.
  now rewrite !tabulate_nth.
Qed.

Lemma column_as_tabulate (v : vector T) :
  column v = column (tabulate (length v) (fun i => nth i v zero)).
Proof. now rewrite <- list_tabulate. Qed.

(** Entries of [b] and [A] in the order in which the code multiplies. *)
Lemma lowessNd_b_columns (n : nat) (x : matrix T) (ys ws : vector T)
      (rng : list nat) :
  length x = n -> length ys = n -> length ws = n ->
  lowessNd_b (column ys) (column ws) (hstack_ones x) rng =
  Ok (map (fun k => sum_upto n (fun i =>
            mul (mul (nth i ys zero) (nth i ws zero)) (design x i k))) rng).
Proof.
  intros Hx Hy Hw. unfold lowessNd_b. apply mapM_ok. intros k _.
  rewrite broadcast_column by congruence. simpl.
  rewrite take_col_hstack, Hx, Hy. apply sum_product_columns.
Qed.

Lemma lowessNd_A_columns (n : nat) (x : matrix T) (ws : vector T)
      (rng : list nat) :
  length x = n -> length ws = n ->
  lowessNd_A (column ws) (hstack_ones x) rng =
  Ok (map (fun j => map (fun i => sum_upto n (fun a =>
            mul (mul (nth a ws zero) (design x a i)) (design x a j))) rng)
          rng).
Proof.
  intros Hx Hw. unfold lowessNd_A. apply mapM_ok. intros j _.
  apply mapM_ok. intros i _.
  rewrite !take_col_hstack, Hx.
  rewrite broadcast_column by now rewrite tabulate_length.
  simpl. rewrite Hw.
  replace (tabulate n (fun a => mul (nth a ws zero)
             (nth a (tabulate n (fun i0 => design x i0 i)) zero)))
    with (tabulate n (fun a => mul (nth a ws zero) (design x a i))).
  - apply sum_product_columns.
  - apply tabulate_ext. intros a Ha. now rewrite tabulate_nth.
Qed.

Lemma shape_one_column (n : nat) (x : matrix T) :
  has_shape n 1 x -> x = column (map (fun row => nth 0 row zero) x).
Proof.
  intros [_ Hrows]. induction Hrows as [|row x Hrow _ IH]; [reflexivity|].
  simpl. rewrite <- IH. f_equal.
  destruct row as [|a [|b row]]; simpl in Hrow; try discriminate.
  reflexivity.
Qed.

Lemma lowess_b_columns (n : nat) (ws xs ys : vector T) :
  length ws = n -> length xs = n -> length ys = n ->
  lowess_b (column ws) (column xs) (column ys) =
  Ok [sum_upto n (fun i => mul (nth i ws zero) (nth i ys zero));
      sum_upto n (fun i =>
        mul (mul (nth i ws zero) (nth i ys zero)) (nth i xs zero))].
Proof.
  intros Hw Hx Hy. unfold lowess_b.
  rewrite broadcast_column by congruence. simpl.
  rewrite broadcast_column by (rewrite tabulate_length; congruence). simpl.
  rewrite !np_sum_column, !tabulate_length, Hw. unfold sum_upto.
  assert (E : tabulate n (fun i =>
                mul (nth i (tabulate n (fun i0 =>
                       mul (nth i0 ws zero) (nth i0 ys zero))) zero)
                    (nth i xs zero)) =
              tabulate n (fun i =>
                mul (mul (nth i ws zero) (nth i ys zero)) (nth i xs zero)))
    by (apply tabulate_ext; intros i Hi; now rewrite tabulate_nth).
  now rewrite E.
Qed.

Lemma lowess_A_columns (n : nat) (ws xs : vector T) :
  length ws = n -> length xs = n ->
  lowess_A (column ws) (column xs) =
  Ok [[sum_list ws;
       sum_upto n (fun i => mul (nth i ws zero) (nth i xs zero))];
      [sum_upto n (fun i => mul (nth i ws zero) (nth i xs zero));
       sum_upto n (fun i =>
         mul (mul (nth i ws zero) (nth i xs zero)) (nth i xs zero))]].
Proof.
  intros Hw Hx. unfold lowess_A.
  rewrite broadcast_column by congruence. simpl.
  rewrite broadcast_column by (rewrite tabulate_length; congruence). simpl.
  rewrite !np_sum_column, !tabulate_length, Hw. unfold sum_upto.
  assert (E : tabulate n (fun i =>
                mul (nth i (tabulate n (fun i0 =>
                       mul (nth i0 ws zero) (nth i0 xs zero))) zero)
                    (nth i xs zero)) =
              tabulate n (fun i =>
                mul (mul (nth i ws zero) (nth i xs zero)) (nth i xs zero)))
    by (apply tabulate_ext; intros i Hi; now rewrite tabulate_nth).
  now rewrite E.
Qed.

End Stages.

(** ** Exact arithmetic on [Q] satisfies the laws *)

Lemma Pos_sqrt_square (p : positive) : Pos.sqrt (p * p) = p.
Proof.
  pose proof (Pos.sqrt_spec (p * p)) as Hs. simpl in Hs.
  destruct Hs as [Hlo Hhi].
  set (s := Pos.sqrt (p * p)) in *. nia.
Qed.

#[export] Instance Q_laws : ScalarLaws Q.
Proof.
  split; simpl.
  - intros [a d]. unfold Qplus. simpl. now rewrite Z.mul_1_r.
  - intros [a d] [b e]. unfold Qmult. simpl.
    now rewrite Z.mul_comm, Pos.mul_comm.
  - intros [a d] [b e] [c f]. unfold Qmult. simpl.
    now rewrite Z.mul_assoc, Pos.mul_assoc.
  - intros [a d]. unfold Qmult. simpl.
    now rewrite Z.mul_1_r, Pos.mul_1_r.
  - intros [a d]. unfold Qsqrt, Qmult, Qabs. simpl.
    rewrite Pos_sqrt_square. f_equal.
    rewrite <- Z.abs_square. apply Z.sqrt_square. apply Z.abs_nonneg.
Qed.

(** ** The neighbourhood weighter *)

Section Weighter.
Context {T : Type} `{Scalar T}.

Lemma norm_axis1_column {L : ScalarLaws T} (v : vector T) :
  norm_axis1 (column v) = map abs v.
Proof.
  unfold norm_axis1, column. rewrite map_map. apply map_ext. intros a.
  unfold sum_list. simpl. now rewrite add_zero_l, sqrt_square.
Qed.

Lemma lowess_dist_column {L : ScalarLaws T} (xq : T) (xs : vector T) :
  lowess_dist xq (column xs) = column (map (fun a => abs (sub a xq)) xs).
Proof.
  unfold lowess_dist, sub_scalar.
  replace (map (map (fun a => sub a xq)) (column xs))
    with (column (map (fun a => sub a xq) xs))
    by (unfold column; now rewrite !map_map).
  now rewrite norm_axis1_column, map_map.
Qed.


(** On an [(N, 1)] column of distances the radius is the entry at
    position [r] in the order of the observations. *)
Lemma lowessNd_radius_is_entry (dist : vector T) (r : Z) :
  (0 <= r < Z.of_nat (length dist))%Z ->
  radius (column dist) r = Ok [nth (Z.to_nat r) dist zero].
Proof. apply radius_column_in_range. Qed.

(** C4. When [r = ceil(f * N) >= N] both variants raise [IndexError] at
    the subscript that determines the radius. *)
Theorem rank_out_of_range_raises
        (solve : matrix T -> vector T -> result (vector T))
        (n m : nat) (x_star : vector T) (xq : T) (x y : matrix T)
        (kernel : T -> T) (bandwidth : T) (radial : bool) :
  has_shape n m x -> 0 < n -> length x_star = m ->
  (Z.of_nat n <= bandwidth_rank bandwidth n)%Z ->
  lowessNd solve x_star x y kernel bandwidth radial = Raise IndexError /\
  lowess solve xq x y bandwidth = Raise IndexError.
Proof.
  intros Hx Hn Hs Hr. pose proof Hx as [Hlen _]. split.
  - unfold lowessNd.
    rewrite (lowessNd_dist_rows n m) by assumption. simpl.
    unfold nrows. rewrite Hlen.
    rewrite radius_column_past_end; [reflexivity|].
    now rewrite length_map, Hlen.
  - unfold lowess, lowess_dist. rewrite Hlen.
    rewrite radius_column_past_end; [reflexivity|].
    unfold sub_scalar. now rewrite norm_axis1_length, length_map, Hlen.
Qed.
End Weighter.

(** ** The weighted least-squares system *)

Section Solver.
Context {T : Type} `{Scalar T}.

Lemma sum_upto_ext (n : nat) (f g : nat -> T) :
  (forall i, i < n -> f i = g i) -> sum_upto n f = sum_upto n g.
Proof. intros E. unfold sum_upto. f_equal. now apply tabulate_ext. Qed.

Lemma square_shape_tabulate (m : nat) (f : nat -> nat -> T) :
  has_shape m m (tabulate m (fun k => tabulate m (f k))).
Proof.
  split; [apply tabulate_length|]. apply Forall_forall. intros row Hrow.
  unfold tabulate in Hrow at 1. apply in_map_iff in Hrow as [k [<- _]].
  apply tabulate_length.
Qed.

Lemma design_column_one (xs : vector T) (i : nat) :
  i < length xs -> design (column xs) i 1 = nth i xs zero.
Proof. intros Hi. unfold design. now rewrite column_nth. Qed.

(** The system of [lowessNd], entry by entry, in the order in which the
    code multiplies its factors. *)
Lemma lowessNd_system_entries (n : nat) (x : matrix T) (ys ws : vector T) :
  length x = n -> length ys = n -> length ws = n ->
  lowessNd_b (column ys) (column ws) (hstack_ones x) (seq 0 (ncols x + 1)) =
    Ok (tabulate (ncols x + 1) (fun k => sum_upto n (fun i =>
          mul (mul (nth i ys zero) (nth i ws zero)) (design x i k)))) /\
  lowessNd_A (column ws) (hstack_ones x) (seq 0 (ncols x + 1)) =
    Ok (tabulate (ncols x + 1) (fun j => tabulate (ncols x + 1) (fun i =>
          sum_upto n (fun a =>
            mul (mul (nth a ws zero) (design x a i)) (design x a j))))).
Proof.
  intros Hx Hy Hw. split.
  - now apply lowessNd_b_columns.
  - now apply lowessNd_A_columns.
Qed.

(** C6 (amended). From [N] observations, with responses and weights held
    as [(N, 1)] columns, both variants build [b] of length [M + 1] with
    [b[k] = sum_i weight[i] * response[i] * X[i,k]] and [A] of shape
    [(M + 1, M + 1)], where column 0 of the design matrix [X] is all ones
    and the other columns are the predictors.  In [lowess] ([M = 1])
    [A[k,l] = sum_i weight[i] * X[i,k] * X[i,l]]; in [lowessNd]
    [A[k,l] = sum_i (weight[i] * X[i,l]) * X[i,k]], the factors in the
    order of the code, which is [sum_i weight[i] * X[i,k] * X[i,l]] where
    multiplication is associative.  Only [a * b = b * a] and [a * 1 = a]
    are assumed. *)
Theorem normal_equations_of_column_data (n : nat) (x : matrix T)
        (xs ys ws : vector T) :
  (forall a b : T, mul a b = mul b a) ->
  (forall a : T, mul a one = a) ->
  length x = n -> length xs = n -> length ys = n -> length ws = n ->
  (exists b A,
      lowessNd_b (column ys) (column ws) (hstack_ones x)
                 (seq 0 (ncols x + 1)) = Ok b /\
      lowessNd_A (column ws) (hstack_ones x) (seq 0 (ncols x + 1)) = Ok A /\
      is_code_normal_system n (ncols x) (fun i => nth i ws zero)
                            (fun i => nth i ys zero) (design x) b A /\
      ((forall a b c : T, mul (mul a b) c = mul (mul a c) b) ->
       is_normal_system n (ncols x) (fun i => nth i ws zero)
                        (fun i => nth i ys zero) (design x) b A)) /\
  (exists b A,
      lowess_b (column ws) (column xs) (column ys) = Ok b /\
      lowess_A (column ws) (column xs) = Ok A /\
      is_normal_system n 1 (fun i => nth i ws zero)
                       (fun i => nth i ys zero) (design (column xs)) b A).
Proof.
  intros Lcomm Lone Hx Hxs Hy Hw. split.
  - destruct (lowessNd_system_entries n x ys ws Hx Hy Hw) as [Eb EA].
    do 2 eexists. split; [exact Eb|]. split; [exact EA|].
    match goal with |- ?P /\ _ => assert (Hcode : P) end.
    { split; [apply tabulate_length|].
      split; [apply square_shape_tabulate|].
      intros k Hk. split.
      - rewrite tabulate_nth by lia. apply sum_upto_ext. intros i _.
        now rewrite (Lcomm (nth i ys zero)).
      - intros l Hl. rewrite (tabulate_nth _ _ _ []) by lia.
        rewrite tabulate_nth by lia. reflexivity. }
    split; [exact Hcode|]. intros Lswap.
    destruct Hcode as (Hlen & Hshape & Hentries).
    split; [exact Hlen|]. split; [exact Hshape|].
    intros k Hk. destruct (Hentries k Hk) as [Hbk HAk].
    split; [exact Hbk|]. intros l Hl. rewrite (HAk l Hl).
    apply sum_upto_ext. intros i _. apply Lswap.
  - do 2 eexists. split; [now apply (lowess_b_columns n)|].
    split; [now apply (lowess_A_columns n)|].
    split; [reflexivity|]. split; [split; [reflexivity|repeat constructor]|].
    intros k Hk.
    assert (Hsum : sum_list ws =
                   sum_upto n (fun i => mul (mul (nth i ws zero) one) one)).
    { unfold sum_upto. f_equal. rewrite (list_tabulate _ ws zero) at 1.
      rewrite Hw. apply tabulate_ext. intros i _. now rewrite !Lone. }
    assert (Hk' : k = 0 \/ k = 1) by lia. destruct Hk' as [-> | ->]; split.
    + simpl. apply sum_upto_ext. intros i _. now rewrite Lone.
    + intros l Hl. assert (Hl' : l = 0 \/ l = 1) by lia.
      destruct Hl' as [-> | ->]; simpl; [exact Hsum|].
      apply sum_upto_ext. intros i Hi.
      rewrite Lone. change (nth 0 (nth i (column xs) []) zero)
        with (design (column xs) i 1).
      now rewrite design_column_one by lia.
    + simpl. apply sum_upto_ext. intros i Hi.
      change (nth 0 (nth i (column xs) []) zero)
        with (design (column xs) i 1).
      now rewrite design_column_one by lia.
    + intros l Hl. assert (Hl' : l = 0 \/ l = 1) by lia.
      destruct Hl' as [-> | ->]; simpl;
        apply sum_upto_ext; intros i Hi;
        change (nth 0 (nth i (column xs) []) zero)
          with (design (column xs) i 1);
        rewrite design_column_one by lia;
        now rewrite ?Lone.
Qed.

(** C8 (amended). The matrix [A] built by [lowess] is a symmetric 2x2
    matrix.  The matrix [A] built by [lowessNd] has shape
    [(M + 1, M + 1)] and [A[k,l] = A[l,k]] whenever [k = l] or one of [k],
    [l] is 0 (hence everywhere when [M = 1]), assuming only [a * 1 = a];
    for the remaining entries [A[k,l]] and [A[l,k]] are sums of the same
    factors multiplied in a different order, equal where
    [(a * b) * c = (a * c) * b]. *)
Theorem normal_matrix_symmetry (n : nat) (x : matrix T) (xs ws : vector T) :
  (forall a : T, mul a one = a) ->
  length x = n -> length xs = n -> length ws = n ->
  (exists A,
      lowess_A (column ws) (column xs) = Ok A /\
      has_shape 2 2 A /\ symmetric_upto 1 A) /\
  (exists A,
      lowessNd_A (column ws) (hstack_ones x) (seq 0 (ncols x + 1)) = Ok A /\
      has_shape (ncols x + 1) (ncols x + 1) A /\
      (forall k l, k <= ncols x -> l <= ncols x ->
         k = 0 \/ l = 0 \/ k = l ->
         nth l (nth k A []) zero = nth k (nth l A []) zero) /\
      ((forall a b c : T, mul (mul a b) c = mul (mul a c) b) ->
       symmetric_upto (ncols x) A)).
Proof.
  intros Lone Hx Hxs Hw. split.
  - eexists. split; [now apply (lowess_A_columns n)|].
    split; [split; [reflexivity | repeat constructor]|].
    intros k l Hk Hl.
    assert (Hk' : k = 0 \/ k = 1) by lia.
    assert (Hl' : l = 0 \/ l = 1) by lia.
    destruct Hk' as [-> | ->], Hl' as [-> | ->]; reflexivity.
  - destruct (lowessNd_system_entries n x ws ws Hx Hw Hw) as [_ EA].
    eexists. split; [exact EA|].
    split; [apply square_shape_tabulate|]. split.
    + intros k l Hk Hl Hcase.
      rewrite !(tabulate_nth _ _ _ []) by lia.
      rewrite !tabulate_nth by lia.
      destruct Hcase as [-> | [-> | ->]]; [| |reflexivity];
        apply sum_upto_ext; intros i _; cbn [design]; now rewrite !Lone.
    + intros Lswap k l Hk Hl.
      rewrite !(tabulate_nth _ _ _ []) by lia.
      rewrite !tabulate_nth by lia.
      apply sum_upto_ext. intros i _. apply Lswap.
Qed.
End Solver.

(** ** The two entry points *)

Ltac bind_inv H :=
  repeat match type of H with
         | bind ?c _ = Ok _ =>
             let E := fresh "E" in
             destruct c eqn:E; simpl in H; [|discriminate H]
         end.

Section Entry.
Context {T : Type} `{Scalar T}.
Variable solve : matrix T -> vector T -> result (vector T).

(** [lowessNd] returns exactly when every stage before the solve
    succeeds, and then with the caught result of the solve. *)
Lemma lowessNd_returns (x_star : vector T) (x y : matrix T)
      (kernel : T -> T) (bandwidth : T) (radial : bool)
      (beta dist : vector T) :
  lowessNd solve x_star x y kernel bandwidth radial = Ok (beta, dist) <->
  exists h w b A,
    lowessNd_dist x_star x = Ok dist /\
    radius (column dist) (bandwidth_rank bandwidth (nrows x)) = Ok h /\
    kernel_weights kernel (column dist) h = Ok w /\
    lowessNd_b y w (hstack_ones x) (seq 0 (ncols x + 1)) = Ok b /\
    lowessNd_A w (hstack_ones x) (seq 0 (ncols x + 1)) = Ok A /\
    beta = try_except (solve A b) (zeros (nrows x + 1)).
Proof.
  unfold lowessNd. split.
  - intros Hrun. bind_inv Hrun. inversion Hrun; subst.
    do 4 eexists. repeat split; eassumption.
  - intros (h & w & b & A & Ed & Eh & Ew & Eb & EA & ->).
    rewrite Ed. simpl. rewrite Eh. simpl. rewrite Ew. simpl.
    rewrite Eb. simpl. rewrite EA. reflexivity.
Qed.

Lemma lowess_returns (x_star : T) (x y : matrix T) (bandwidth : T)
      (slope intercept : T) (w : matrix T) :
  lowess solve x_star x y bandwidth = Ok (slope, intercept, w) <->
  exists h b A beta,
    radius (lowess_dist x_star x) (bandwidth_rank bandwidth (length x)) = Ok h /\
    kernel_weights tricube (lowess_dist x_star x) h = Ok w /\
    lowess_b w x y = Ok b /\
    lowess_A w x = Ok A /\
    solve A b = Ok beta /\
    py_index beta 1 = Ok slope /\
    py_index beta 0 = Ok intercept.
Proof.
  unfold lowess. split.
  - intros Hrun. bind_inv Hrun. inversion Hrun; subst.
    do 4 eexists. repeat split; eassumption.
  - intros (h & b & A & beta & Eh & Ew & Eb & EA & Es & E1 & E0).
    rewrite Eh. simpl. rewrite Ew. simpl. rewrite Eb. simpl.
    rewrite EA. simpl. rewrite Es. simpl. rewrite E1. simpl.
    rewrite E0. reflexivity.
Qed.

(** C3. When the solve of the 2x2 system of [lowess] fails, [lowess]
    raises that very exception; it does not return a zero coefficient
    vector. *)
Theorem lowess_propagates_solve_failure (x_star : T) (x y : matrix T)
        (bandwidth : T) (h b : vector T) (w A : matrix T) (e : exn) :
  radius (lowess_dist x_star x) (bandwidth_rank bandwidth (length x)) = Ok h ->
  kernel_weights tricube (lowess_dist x_star x) h = Ok w ->
  lowess_b w x y = Ok b ->
  lowess_A w x = Ok A ->
  solve A b = Raise e ->
  lowess solve x_star x y bandwidth = Raise e.
Proof.
  intros Eh Ew Eb EA Es. unfold lowess.
  rewrite Eh. simpl. rewrite Ew. simpl. rewrite Eb. simpl.
  rewrite EA. simpl. rewrite Es. reflexivity.
Qed.


(** C9. The [radial] flag of [lowessNd] has no effect on the result. *)
Theorem radial_flag_is_noop (x_star : vector T) (x y : matrix T)
        (kernel : T -> T) (bandwidth : T) :
  lowessNd solve x_star x y kernel bandwidth true =
  lowessNd solve x_star x y kernel bandwidth false.
Proof. reflexivity. Qed.

(** C10. Whatever exception the solve of [A beta = b] raises, [lowessNd]
    catches it and returns the vector of zeros in place of [beta]; once
    the system is built, [lowessNd] returns whatever the solver does. *)
Theorem solve_failure_never_propagates (x_star : vector T) (x y : matrix T)
        (kernel : T -> T) (bandwidth : T) (radial : bool)
        (dist h b : vector T) (w A : matrix T) :
  lowessNd_dist x_star x = Ok dist ->
  radius (column dist) (bandwidth_rank bandwidth (nrows x)) = Ok h ->
  kernel_weights kernel (column dist) h = Ok w ->
  lowessNd_b y w (hstack_ones x) (seq 0 (ncols x + 1)) = Ok b ->
  lowessNd_A w (hstack_ones x) (seq 0 (ncols x + 1)) = Ok A ->
  (forall e, solve A b = Raise e ->
     lowessNd solve x_star x y kernel bandwidth radial =
     Ok (zeros (nrows x + 1), dist)) /\
  (exists beta,
     lowessNd solve x_star x y kernel bandwidth radial = Ok (beta, dist)).
Proof.
  intros Ed Eh Ew Eb EA. split.
  - intros e Es. apply lowessNd_returns.
    exists h, w, b, A. rewrite Es. repeat split; assumption.
  - eexists. apply lowessNd_returns.
    exists h, w, b, A. repeat split; eassumption.
Qed.
End Entry.

(** ** The code on concrete data *)

Local Open Scope Q_scope.

(** Data on the line [y = x] give slope 1 and intercept 0. *)
Example lowess_on_a_line :
  lowess gauss_solve 2 (Qcol [0; 1; 2; 3; 4]%Z) (Qcol [0; 1; 2; 3; 4]%Z) (4 # 5)
  = Ok (1, 0, column [0; 343 # 512; 512 # 512; 343 # 512; 0]).
Proof. vm_compute. reflexivity. Qed.

(** C1. Where the code departs from the claim: with five observations at
    distances [0, 1, 9, 2, 3] from the query and [f = 1/2], the rank is
    [r = 3]; [np.sort] sorts each one-entry row of the [(N, 1)] array and
    so changes nothing, and both variants take [h = 2], the distance of
    observation 3, whereas the 3rd smallest distance (0-indexed) is [3]. *)
Theorem radius_is_entry_not_rth_smallest :
  let x := Qcol [0; 1; 9; 2; 3]%Z in
  let dist := [0; 1; 9; 2; 3] in
  bandwidth_rank (1 # 2) (length x) = 3%Z /\
  lowessNd_dist [0] x = Ok dist /\
  lowess_dist 0 x = column dist /\
  np_sort (column dist) = column dist /\
  radius (column dist) 3 = Ok [2] /\
  sort dist = [0; 1; 2; 3; 9] /\
  rth_smallest dist 3 = 3 /\
  lowess gauss_solve 0 x x (1 # 2)
  = Ok (1, 0, column [512 # 512; 343 # 512; 0; 0; 0]).
Proof. vm_compute. repeat split; reflexivity. Qed.

(** C2. Where the code departs from the claim: four coincident predictor
    points in one dimension ([N = 4], [M = 1]) give all weights zero and a
    singular [A]; [lowessNd] catches the solver's failure and returns
    [np.zeros(n + 1)], five zeros, not the [M + 1 = 2] of a coefficient
    vector. *)
Theorem singular_fallback_has_length_n_plus_1 :
  let x := Qcol [1; 1; 1; 1]%Z in
  let y := Qcol [1; 2; 3; 4]%Z in
  let w := column [0; 0; 0; 0] in
  kernel_weights tricube (column [1; 1; 1; 1]) [1] = Ok w /\
  lowessNd_A w (hstack_ones x) (seq 0 (ncols x + 1)) = Ok [[0; 0]; [0; 0]] /\
  lowessNd_b y w (hstack_ones x) (seq 0 (ncols x + 1)) = Ok [0; 0] /\
  gauss_solve [[0; 0]; [0; 0]] [0; 0] = Raise LinAlgError /\
  lowessNd gauss_solve [0] x y tricube (1 # 2) false
  = Ok ([0; 0; 0; 0; 0], [1; 1; 1; 1]) /\
  (ncols x + 1 = 2)%nat.
Proof. vm_compute. repeat split; reflexivity. Qed.

(** One distinct predictor value inside the neighbourhood: the 2x2 system
    is singular and [lowess] raises. *)
Lemma lowess_propagates_solve_failure_witness :
  lowess gauss_solve 0 (Qcol [1; 1; 3]%Z) (Qcol [1; 2; 3]%Z) (1 # 2)
  = Raise LinAlgError.
Proof.
  eapply (lowess_propagates_solve_failure gauss_solve);
    vm_compute; reflexivity.
Defined.

(** [N = 3] and [f = 1] give [r = 3]. *)
Lemma rank_out_of_range_raises_witness :
  lowessNd gauss_solve [0] (Qcol [0; 1; 2]%Z) (Qcol [0; 1; 2]%Z) tricube 1 false
  = Raise IndexError /\
  lowess gauss_solve 0 (Qcol [0; 1; 2]%Z) (Qcol [0; 1; 2]%Z) 1
  = Raise IndexError.
Proof.
  apply (rank_out_of_range_raises gauss_solve 3 1).
  - split; [reflexivity | repeat constructor].
  - lia.
  - reflexivity.
  - apply Z.leb_le. vm_compute. reflexivity.
Defined.


(** Three observations with weights [1, 1/2, 0]. *)
Lemma normal_equations_of_column_data_witness :
  exists b A,
    lowess_b (column [1; 1 # 2; 0]) (column [1; 2; 3]) (column [1; 0; 2]) = Ok b /\
    lowess_A (column [1; 1 # 2; 0]) (column [1; 2; 3]) = Ok A /\
    is_normal_system 3 1 (fun i => nth i [1; 1 # 2; 0] 0)
                     (fun i => nth i [1; 0; 2] 0)
                     (design (column [1; 2; 3])) b A.
Proof.
  exact (proj2 (normal_equations_of_column_data 3 [[1; 2]; [3; 4]; [5; 6]]
                  [1; 2; 3] [1; 0; 2] [1; 1 # 2; 0]
                  (@mul_comm Q Q_scalar Q_laws) (@mul_one_r Q Q_scalar Q_laws)
                  eq_refl eq_refl eq_refl eq_refl)).
Defined.

(** C6 (counterexample).  Responses [1, 2] given as a 1-D array, with
    weights [1, 1/2]: the code yields [b[0] = 9/2], the sum over all pairs,
    where [sum_i weight[i] * response[i] * X[i,0]] is 2.  And in binary64,
    with one observation of weight [0.1] and predictors [(0.2, 0.3)], the
    code's [A[1,2]] is [(0.1 * 0.3) * 0.2], which differs from
    [0.1 * X[0,1] * X[0,2] = (0.1 * 0.2) * 0.3]. *)
Lemma normal_equations_formula_fails :
  (exists b,
      lowessNd_b (as_row [1; 2]) (column [1; 1 # 2]) (hstack_ones [[1]; [2]])
                 (seq 0 (ncols [[1]; [2]] + 1)) = Ok b /\
      length b = 2%nat /\
      (nth 0 b 0 == 9 # 2) /\
      ~ (nth 0 b 0 ==
         sum_upto 2 (fun i => nth i [1; 1 # 2] 0 * nth i [1; 2] 0 *
                              design [[1]; [2]] i 0))) /\
  (exists A,
      lowessNd_A (column [float_ratio 1 10])
                 (hstack_ones [[float_ratio 2 10; float_ratio 3 10]])
                 (seq 0 (ncols [[float_ratio 2 10; float_ratio 3 10]] + 1))
      = Ok A /\
      PrimFloat.eqb
        (nth 2 (nth 1 A []) zero)
        (sum_upto 1 (fun i =>
           mul (mul (nth i [float_ratio 1 10] zero)
                    (design [[float_ratio 2 10; float_ratio 3 10]] i 1))
               (design [[float_ratio 2 10; float_ratio 3 10]] i 2)))
      = false).
Proof.
  split.
  - eexists. split; [vm_compute; reflexivity|].
    split; [reflexivity|]. split; [vm_compute; reflexivity|].
    vm_compute. discriminate.
  - eexists. split; [vm_compute; reflexivity|].
    vm_compute. reflexivity.
Qed.

(** Three observations of two predictors. *)
Lemma normal_matrix_symmetry_witness :
  exists A,
    lowess_A (column [1; 1 # 3; 2]) (column [1; 2; 3]) = Ok A /\
    has_shape 2 2 A /\ symmetric_upto 1 A.
Proof.
  exact (proj1 (normal_matrix_symmetry 3 [[1; 2]; [3; 4]; [5; 6]]
                  [1; 2; 3] [1; 1 # 3; 2]
                  (@mul_one_r Q Q_scalar Q_laws) eq_refl eq_refl eq_refl)).
Defined.

(** C8 (counterexample).  In binary64, one observation of weight [0.1]
    with predictors [(0.2, 0.3)]: [lowessNd] builds
    [A[1,2] = (0.1 * 0.3) * 0.2] and [A[2,1] = (0.1 * 0.2) * 0.3], which
    are different numbers, so [A] is not symmetric. *)
Lemma normal_matrix_not_symmetric_in_binary64 :
  exists A,
    lowessNd_A (column [float_ratio 1 10])
               (hstack_ones [[float_ratio 2 10; float_ratio 3 10]])
               (seq 0 (ncols [[float_ratio 2 10; float_ratio 3 10]] + 1))
    = Ok A /\
    has_shape 3 3 A /\
    PrimFloat.eqb (nth 2 (nth 1 A []) zero) (nth 1 (nth 2 A []) zero) = false /\
    ~ symmetric_upto 2 A.
Proof.
  eexists. split; [vm_compute; reflexivity|].
  split; [split; [reflexivity | repeat constructor]|].
  split; [vm_compute; reflexivity|].
  intros Hsym.
  assert (E : nth 2 (nth 1 _ []) zero = nth 1 (nth 2 _ []) zero)
    by (apply (Hsym 1%nat 2%nat); lia).
  vm_compute in E.
  match type of E with
  | _ = ?b => apply (f_equal (fun f => PrimFloat.eqb f b)) in E
  end.
  vm_compute in E. discriminate E.
Qed.

(** Collinear predictors: the solver fails on the 3x3 system and
    [lowessNd] still returns. *)
Lemma solve_failure_never_propagates_witness :
  lowessNd gauss_solve [0; 0] [[3; 4]; [3; 4]; [6; 8]] (Qcol [1; 2; 3]%Z)
           tricube (1 # 2) true
  = Ok ([0; 0; 0; 0], [5; 5; 10]).
Proof.
  edestruct (solve_failure_never_propagates gauss_solve
               [0; 0] [[3; 4]; [3; 4]; [6; 8]] (Qcol [1; 2; 3]%Z)
               tricube (1 # 2) true) as [Hcatch _];
    [vm_compute; reflexivity .. |].
  apply (Hcatch LinAlgError). vm_compute. reflexivity.
Defined.

(** * Further properties of the two functions *)

Local Open Scope nat_scope.

(** ** Subscripts and lengths of the stages *)

Lemma py_index_negative (A : Type) (l : list A) (r : Z) (d : A) :
  (- Z.of_nat (length l) <= r < 0)%Z ->
  py_index l r = Ok (nth (Z.to_nat (r + Z.of_nat (length l))) l d).
Proof.
  intros Hr. unfold py_index.
  destruct (Z.ltb_spec r 0); [|lia].
  destruct (Z.leb_spec 0 (r + Z.of_nat (length l))); [|lia].
  destruct (Z.ltb_spec (r + Z.of_nat (length l)) (Z.of_nat (length l))); [|lia].
  simpl.
  destruct (nth_error l (Z.to_nat (r + Z.of_nat (length l)))) eqn:E.
  - now rewrite (nth_error_nth _ _ d E).
  - apply nth_error_None in E. lia.
Qed.

Lemma py_index_before_start (A : Type) (l : list A) (r : Z) :
  (r < - Z.of_nat (length l))%Z -> py_index l r = Raise IndexError.
Proof.
  intros Hr. unfold py_index.
  destruct (Z.ltb_spec r 0); [|lia].
  destruct (Z.leb_spec 0 (r + Z.of_nat (length l))); [lia|]. reflexivity.
Qed.

Lemma py_index_ok_nth (A : Type) (l : list A) (r : Z) (a d : A) :
  py_index l r = Ok a -> exists k, k < length l /\ a = nth k l d.
Proof.
  unfold py_index.
  destruct (_ && _)%bool; [|discriminate].
  match goal with |- context [nth_error l ?k] => set (i := k) end.
  destruct (nth_error l i) eqn:E; [|discriminate].
  intros [= <-]. exists i. split.
  - apply nth_error_Some. congruence.
  - symmetry. now apply nth_error_nth.
Qed.

Section StageLengths.
Context {T : Type} `{Scalar T}.

Lemma broadcast_nrows (op : T -> T -> T) (a b c : matrix T) :
  broadcast op a b = Ok c -> length c = bdim (nrows a) (nrows b).
Proof.
  unfold broadcast. destruct (_ && _)%bool; [|discriminate].
  intros [= <-]. apply tabulate_length.
Qed.

Lemma bdim_one_r (n : nat) : bdim n 1 = n.
Proof. unfold bdim. now destruct (Nat.eqb_spec n 1). Qed.

Lemma lowessNd_dist_length (x_star : vector T) (x : matrix T) (dist : vector T) :
  lowessNd_dist x_star x = Ok dist -> length dist = nrows x.
Proof.
  unfold lowessNd_dist. destruct (broadcast _ _ _) eqn:E; simpl; [|discriminate].
  intros [= <-]. rewrite norm_axis1_length.
  apply broadcast_nrows in E. cbn in E. now rewrite bdim_one_r in E.
Qed.
End StageLengths.

(** ** The radius subscript *)

Section RadiusSubscript.
Context {T : Type} `{Scalar T}.

Lemma mod_of_rank (n r : Z) :
  (- n <= r < n)%Z -> (r mod n = if r <? 0 then r + n else r)%Z.
Proof.
  intros Hr. destruct (Z.ltb_spec r 0).
  - symmetry. apply (Z.mod_unique r n (-1) (r + n)); lia.
  - apply Z.mod_small. lia.
Qed.

Lemma radius_column_wrapped (dist : vector T) (r : Z) :
  (- Z.of_nat (length dist) <= r < Z.of_nat (length dist))%Z ->
  radius (column dist) r =
  Ok [nth (Z.to_nat (r mod Z.of_nat (length dist))) dist zero].
Proof.
  intros Hr. rewrite mod_of_rank by assumption.
  destruct (Z.ltb_spec r 0).
  - rewrite radius_column.
    rewrite (py_index_negative _ _ _ []) by (rewrite column_length; lia).
    rewrite column_length, column_nth by lia. reflexivity.
  - apply radius_column_in_range. lia.
Qed.

(** X1. In both variants the radius is a one-entry array holding the
    distance of a single observation, taken in the order of the input:
    observation [r] when [0 <= r < N], observation [N + r] when
    [-N <= r < 0] (a negative bandwidth counts from the end). *)
Theorem radius_is_distance_of_one_observation
        (dist : vector T) (xq : T) (x : matrix T) (r : Z) :
  (- Z.of_nat (length dist) <= r < Z.of_nat (length dist))%Z ->
  length x = length dist ->
  radius (column dist) r =
    Ok [nth (Z.to_nat (r mod Z.of_nat (length dist))) dist zero] /\
  radius (lowess_dist xq x) r =
    Ok [nth (Z.to_nat (r mod Z.of_nat (length x)))
            (norm_axis1 (sub_scalar x xq)) zero].
Proof.
  intros Hr Hx. split.
  - now apply radius_column_wrapped.
  - unfold lowess_dist.
    replace (length x) with (length (norm_axis1 (sub_scalar x xq)))
      by (unfold sub_scalar; now rewrite norm_axis1_length, length_map).
    apply radius_column_wrapped.
    unfold sub_scalar. rewrite norm_axis1_length, length_map. lia.
Qed.

(** X2. A rank below [-N] is out of range as well: both variants raise
    [IndexError]. *)
Theorem rank_before_start_raises
        (solve : matrix T -> vector T -> result (vector T))
        (n m : nat) (x_star : vector T) (xq : T) (x y : matrix T)
        (kernel : T -> T) (bandwidth : T) (radial : bool) :
  has_shape n m x -> 0 < n -> length x_star = m ->
  (bandwidth_rank bandwidth n < - Z.of_nat n)%Z ->
  lowessNd solve x_star x y kernel bandwidth radial = Raise IndexError /\
  lowess solve xq x y bandwidth = Raise IndexError.
Proof.
  intros Hx Hn Hs Hr. pose proof Hx as [Hlen _]. split.
  - unfold lowessNd.
    rewrite (lowessNd_dist_rows n m) by assumption. simpl.
    unfold nrows, radius. rewrite Hlen, np_sort_column.
    rewrite py_index_before_start; [reflexivity|].
    now rewrite column_length, length_map, Hlen.
  - unfold lowess, lowess_dist, radius. rewrite Hlen, np_sort_column.
    rewrite py_index_before_start; [reflexivity|].
    unfold sub_scalar.
    now rewrite column_length, norm_axis1_length, length_map, Hlen.
Qed.
End RadiusSubscript.

(** ** The returned distances *)

Section Distances.
Context {T : Type} `{Scalar T}.

(** X5. The distance vector that [lowessNd] returns has one entry per
    observation and is a function of [x_star] and [x] alone: responses,
    kernel, bandwidth, flag and solver have no part in it. *)
Theorem lowessNd_distances_depend_on_x_only
        (solve solve' : matrix T -> vector T -> result (vector T))
        (x_star : vector T) (x y y' : matrix T) (kernel kernel' : T -> T)
        (bandwidth bandwidth' : T) (radial radial' : bool)
        (beta beta' dist dist' : vector T) :
  lowessNd solve x_star x y kernel bandwidth radial = Ok (beta, dist) ->
  lowessNd solve' x_star x y' kernel' bandwidth' radial' = Ok (beta', dist') ->
  length dist = nrows x /\ dist' = dist.
Proof.
  intros Hrun Hrun'.
  apply lowessNd_returns in Hrun as (h & w & b & A & Ed & _).
  apply lowessNd_returns in Hrun' as (h' & w' & b' & A' & Ed' & _).
  split.
  - now apply (lowessNd_dist_length x_star).
  - congruence.
Qed.
End Distances.

(** ** Shapes that numpy stretches, and shapes it refuses *)

Section Shapes.
Context {T : Type} `{Scalar T}.

Lemma shape_tabulate (n m : nat) (f : nat -> nat -> T) :
  has_shape n m (tabulate n (fun i => tabulate m (f i))).
Proof.
  split; [apply tabulate_length|]. apply Forall_forall. intros row Hrow.
  unfold tabulate in Hrow at 1. apply in_map_iff in Hrow as [k [<- _]].
  apply tabulate_length.
Qed.

Lemma bget_column_any (v : vector T) (i j : nat) :
  i < length v -> bget (column v) i j = nth i v zero.
Proof.
  intros Hi. rewrite <- (bget_column v i Hi). unfold bget.
  rewrite column_ncols. destruct (Nat.eqb_spec (length v) 0); [lia|].
  reflexivity.
Qed.

Lemma compat_one_r (n : nat) : compat n 1 = true.
Proof. unfold compat. now rewrite orb_true_r. Qed.

Lemma compat_one_l (n : nat) : compat 1 n = true.
Proof. unfold compat. simpl. now rewrite orb_true_r. Qed.

Lemma compat_refl (n : nat) : compat n n = true.
Proof. unfold compat. now rewrite Nat.eqb_refl. Qed.

Lemma bdim_same (n : nat) : bdim n n = n.
Proof. unfold bdim. now destruct (n =? 1). Qed.

(** An [(N, M)] array against a single cell. *)
Lemma broadcast_matrix_cell (op : T -> T -> T) (n m : nat) (a : matrix T)
      (s : T) :
  has_shape n m a -> 0 < n ->
  broadcast op a [[s]] = Ok (map (map (fun c => op c s)) a).
Proof.
  intros Ha Hn. unfold broadcast.
  rewrite (shape_ncols n m a Ha Hn). pose proof Ha as [Hlen Hrows].
  unfold nrows. rewrite Hlen. simpl length. cbn [ncols length].
  rewrite !compat_one_r, !bdim_one_r. simpl. f_equal.
  rewrite (map_tabulate _ _ _ a []), Hlen.
  apply tabulate_ext. intros i Hi.
  rewrite (map_tabulate _ _ _ (nth i a []) zero), (shape_row n m a i Ha Hi).
  apply tabulate_ext. intros j Hj.
  now rewrite bget_cell, (bget_shape n m).
Qed.

(** A row of length [M] against a column of length [N]: the outer
    combination, of shape [(N, M)]. *)
Lemma broadcast_row_column (op : T -> T -> T) (n m : nat) (u v : vector T) :
  length u = m -> length v = n -> 0 < n ->
  broadcast op (as_row u) (column v) =
  Ok (tabulate n (fun i => tabulate m (fun j =>
        op (nth j u zero) (nth i v zero)))).
Proof.
  intros Hu Hv Hn. unfold broadcast, nrows.
  rewrite column_ncols, column_length, Hv. cbn [as_row ncols length]. rewrite Hu.
  destruct (Nat.eqb_spec n 0); [lia|].
  rewrite compat_one_l, compat_one_r, bdim_one_r. simpl. f_equal.
  apply tabulate_ext. intros i Hi. apply tabulate_ext. intros j Hj.
  rewrite bget_row, bget_column_any by lia. reflexivity.
Qed.

(** An [(N, M)] array against a column of length [N]: the column is
    stretched over the columns of the array. *)
Lemma broadcast_matrix_column (op : T -> T -> T) (n m : nat) (a : matrix T)
      (c : vector T) :
  has_shape n m a -> 0 < n -> length c = n ->
  broadcast op a (column c) =
  Ok (tabulate n (fun i => tabulate m (fun j =>
        op (nth j (nth i a []) zero) (nth i c zero)))).
Proof.
  intros Ha Hn Hc. unfold broadcast.
  rewrite (shape_ncols n m a Ha Hn). unfold nrows.
  rewrite column_ncols, column_length, Hc. destruct Ha as [Hlen Hrows].
  rewrite Hlen. destruct (Nat.eqb_spec n 0); [lia|].
  rewrite compat_refl, compat_one_r, bdim_same, bdim_one_r. simpl. f_equal.
  apply tabulate_ext. intros i Hi. apply tabulate_ext. intros j Hj.
  rewrite (bget_shape n m), bget_column_any by (auto; try lia; now split).
  reflexivity.
Qed.

(** X6. [lowessNd] refuses a query whose length neither equals the number
    [M] of predictor columns nor is 1 (and [M] is not 1): the subtraction
    [x - x_star] raises [ValueError]. *)
Theorem query_shape_mismatch_raises
        (solve : matrix T -> vector T -> result (vector T))
        (n m : nat) (x_star : vector T) (x y : matrix T) (kernel : T -> T)
        (bandwidth : T) (radial : bool) :
  has_shape n m x -> 0 < n ->
  length x_star <> m -> length x_star <> 1 -> m <> 1 ->
  lowessNd solve x_star x y kernel bandwidth radial = Raise ValueError.
Proof.
  intros Hx Hn Hm H1 Hm1. unfold lowessNd, lowessNd_dist, broadcast.
  rewrite (shape_ncols n m x Hx Hn). cbn [as_row ncols].
  replace (compat m (length x_star)) with false.
  - now rewrite andb_false_r.
  - unfold compat.
    destruct (Nat.eqb_spec m (length x_star)); [congruence|].
    destruct (Nat.eqb_spec m 1); [congruence|].
    destruct (Nat.eqb_spec (length x_star) 1); [congruence|]. reflexivity.
Qed.

(** X7. A query of a single coordinate is accepted against predictors of
    any dimension [M]: it is subtracted from every coordinate of every
    observation, without any error. *)
Theorem one_coordinate_query_is_stretched
        (n m : nat) (s : T) (x : matrix T) :
  has_shape n m x -> 0 < n ->
  lowessNd_dist [s] x =
  Ok (map (fun row => euclid_norm (map (fun a => sub a s) row)) x).
Proof.
  intros Hx Hn. unfold lowessNd_dist, as_row.
  rewrite (broadcast_matrix_cell sub n m) by assumption. simpl.
  unfold norm_axis1. now rewrite map_map.
Qed.

(** X8. Responses passed as a 1-D array of length [N] (a single row in
    2-D operations) are not refused: [y * w] becomes an [(N, N)] array
    and entry [k] of [b] sums [y[j] * w[i] * X[i,k]] over all pairs
    [(i, j)], not over the observations. *)
Theorem flat_responses_pair_with_every_weight
        (n : nat) (x : matrix T) (ys ws : vector T) (rng : list nat) :
  length x = n -> length ys = n -> length ws = n -> 0 < n ->
  lowessNd_b (as_row ys) (column ws) (hstack_ones x) rng =
  Ok (map (fun k => np_sum (tabulate n (fun i => tabulate n (fun j =>
            mul (mul (nth j ys zero) (nth i ws zero)) (design x i k)))))
          rng).
Proof.
  intros Hx Hy Hw Hn. unfold lowessNd_b. apply mapM_ok. intros k _.
  rewrite (broadcast_row_column mul n n) by assumption. simpl.
  rewrite take_col_hstack, Hx.
  rewrite (broadcast_matrix_column mul n n);
    [| apply shape_tabulate | assumption | apply tabulate_length].
  simpl. do 2 f_equal.
  apply tabulate_ext. intros i Hi. apply tabulate_ext. intros j Hj.
  rewrite (tabulate_nth _ _ _ [] i Hi), !tabulate_nth by assumption.
  reflexivity.
Qed.

(** X9. Responses with a number of rows that is neither [N] nor 1 are
    refused: with well-shaped predictors and a rank in range, [lowessNd]
    raises [ValueError] when it builds [b]. *)
Theorem response_rows_mismatch_raises
        (solve : matrix T -> vector T -> result (vector T))
        (n m : nat) (x_star : vector T) (x y : matrix T) (kernel : T -> T)
        (bandwidth : T) (radial : bool) :
  has_shape n m x -> 1 < n -> length x_star = m ->
  (- Z.of_nat n <= bandwidth_rank bandwidth n < Z.of_nat n)%Z ->
  nrows y <> n -> nrows y <> 1 ->
  lowessNd solve x_star x y kernel bandwidth radial = Raise ValueError.
Proof.
  intros Hx Hn Hs Hr Hy Hy1. pose proof Hx as [Hlen _].
  unfold lowessNd.
  rewrite (lowessNd_dist_rows n m) by (auto; lia). simpl.
  set (dist := map (fun row => euclid_norm (vsub row x_star)) x).
  assert (Hd : length dist = n) by (unfold dist; now rewrite length_map).
  unfold nrows at 1. rewrite Hlen.
  rewrite radius_column_wrapped by (rewrite Hd; exact Hr). simpl.
  rewrite kernel_weights_column. simpl.
  rewrite Nat.add_1_r. cbn [seq lowessNd_b mapM].
  unfold broadcast at 1. unfold nrows at 1 2.
  rewrite column_length, length_map, Hd.
  replace (compat (length y) n) with false; [reflexivity|].
  unfold compat, nrows in *.
  destruct (Nat.eqb_spec (length y) n); [congruence|].
  destruct (Nat.eqb_spec (length y) 1); [congruence|].
  destruct (Nat.eqb_spec n 1); [lia|]. reflexivity.
Qed.
End Shapes.

(** ** Well-shaped input, and the two variants side by side *)

Section WellShaped.
Context {T : Type} `{Scalar T}.
Variable solve : matrix T -> vector T -> result (vector T).

(** X10. On predictors of shape [(N, M)], a query of length [M], a column
    of [N] responses and a rank [-N <= r < N], [lowessNd] raises nothing,
    whatever the solver does: it returns some [beta] together with the
    Euclidean distances of the observations from the query. *)
Theorem lowessNd_returns_on_well_shaped_input
        (n m : nat) (x_star : vector T) (x : matrix T) (ys : vector T)
        (kernel : T -> T) (bandwidth : T) (radial : bool) :
  has_shape n m x -> 0 < n -> length x_star = m -> length ys = n ->
  (- Z.of_nat n <= bandwidth_rank bandwidth n < Z.of_nat n)%Z ->
  exists beta,
    lowessNd solve x_star x (column ys) kernel bandwidth radial =
    Ok (beta, map (fun row => euclid_norm (vsub row x_star)) x).
Proof.
  intros Hx Hn Hs Hy Hr. pose proof Hx as [Hlen _].
  set (dist := map (fun row => euclid_norm (vsub row x_star)) x).
  assert (Hd : length dist = n) by (unfold dist; now rewrite length_map).
  eexists. apply lowessNd_returns. do 4 eexists.
  split; [now apply (lowessNd_dist_rows n m)|].
  split; [unfold nrows; rewrite Hlen;
          apply radius_column_wrapped; now rewrite Hd|].
  split; [apply kernel_weights_column|].
  split; [apply (lowessNd_b_columns n); auto; now rewrite length_map|].
  split; [apply (lowessNd_A_columns n); auto; now rewrite length_map|].
  reflexivity.
Qed.

(** X11. On [N] scalar predictors and [N] responses, both held as
    columns, and a rank [-N <= r < N], [lowess] can only fail in the solve
    or in reading [beta[1]], [beta[0]]; the weights it returns are
    [tricube(|x_i - x_star| / h)] where [h = |x_k - x_star|] for the one
    observation [k = r mod N]. *)
Theorem lowess_weights_on_well_shaped_input {L : ScalarLaws T}
        (n : nat) (xq : T) (xs ys : vector T) (bandwidth : T) :
  length xs = n -> length ys = n ->
  (- Z.of_nat n <= bandwidth_rank bandwidth n < Z.of_nat n)%Z ->
  let dist := map (fun a => abs (sub a xq)) xs in
  let h0 := nth (Z.to_nat (bandwidth_rank bandwidth n mod Z.of_nat n)) dist zero in
  let w := column (map (fun a => tricube (div a h0)) dist) in
  exists b A,
    length b = 2 /\ has_shape 2 2 A /\
    lowess solve xq (column xs) (column ys) bandwidth =
    (beta <- solve A b ;;
     slope <- py_index beta 1 ;;
     intercept <- py_index beta 0 ;;
     Ok (slope, intercept, w)).
Proof.
  intros Hxs Hys Hr dist h0 w.
  assert (Hd : length dist = n) by (unfold dist; now rewrite length_map).
  unfold lowess. rewrite lowess_dist_column, column_length, Hxs.
  fold dist. rewrite radius_column_wrapped by (rewrite Hd; exact Hr).
  rewrite Hd. fold h0. simpl.
  rewrite kernel_weights_column. fold w. simpl.
  unfold w. rewrite (lowess_b_columns n) by (auto; now rewrite length_map).
  simpl. rewrite (lowess_A_columns n) by (auto; now rewrite length_map).
  simpl. do 2 eexists.
  split; [|split; [|reflexivity]].
  - reflexivity.
  - split; [reflexivity | repeat constructor].
Qed.

Lemma radius_column_inv (dist h : vector T) (r : Z) :
  radius (column dist) r = Ok h ->
  exists k, k < length dist /\ h = [nth k dist zero].
Proof.
  rewrite radius_column. intros E.
  apply (py_index_ok_nth _ _ _ _ []) in E as (k & Hk & ->).
  rewrite column_length in Hk. exists k. split; [assumption|].
  now apply column_nth.
Qed.

Lemma sum_list_as_sum_upto {L : ScalarLaws T} (n : nat) (ws : vector T) :
  length ws = n ->
  sum_list ws = sum_upto n (fun i => mul (mul (nth i ws zero) one) one).
Proof.
  intros Hw. unfold sum_upto. f_equal.
  rewrite (list_tabulate _ ws zero) at 1. rewrite Hw.
  apply tabulate_ext. intros i _. now rewrite !mul_one_r.
Qed.

(** In one dimension the two variants build the same system. *)
Lemma systems_agree_in_one_dimension {L : ScalarLaws T} (n : nat)
      (ws xs ys : vector T) :
  length ws = n -> length xs = n -> length ys = n -> 0 < n ->
  lowessNd_b (column ys) (column ws) (hstack_ones (column xs))
             (seq 0 (ncols (column xs) + 1)) =
    lowess_b (column ws) (column xs) (column ys) /\
  lowessNd_A (column ws) (hstack_ones (column xs))
             (seq 0 (ncols (column xs) + 1)) =
    lowess_A (column ws) (column xs).
Proof.
  intros Hw Hx Hy Hn.
  assert (Hc : ncols (column xs) + 1 = 2).
  { rewrite column_ncols, Hx. destruct (Nat.eqb_spec n 0); [lia|reflexivity]. }
  rewrite Hc.
  assert (Hdesign : forall i, i < n -> design (column xs) i 1 = nth i xs zero)
    by (intros i Hi; apply design_column_one; lia).
  split.
  - rewrite (lowessNd_b_columns n), (lowess_b_columns n)
      by (auto; now rewrite column_length).
    cbn [seq map]. f_equal. f_equal; [|f_equal];
      apply sum_upto_ext; intros i Hi.
    + cbn [design]. now rewrite mul_one_r, mul_comm.
    + rewrite Hdesign by assumption.
      now rewrite (mul_comm (nth i ys zero)).
  - rewrite (lowessNd_A_columns n), (lowess_A_columns n)
      by (auto; now rewrite column_length).
    cbn [seq map]. rewrite (sum_list_as_sum_upto n ws Hw).
    f_equal.
    repeat match goal with |- _ :: _ = _ :: _ => f_equal end;
      apply sum_upto_ext; intros i Hi;
      rewrite ?Hdesign by assumption; cbn [design];
      now rewrite ?mul_one_r.
Qed.

(** X12. In one dimension the two variants agree whenever [lowess]
    returns: on the same columns of [N] predictors and [N] responses, with
    the tricube kernel, [lowessNd] returns a [beta] whose entry 1 is the
    slope and whose entry 0 is the intercept that [lowess] returns, and
    its distances are those that [lowess] weighs. *)
Theorem lowess_agrees_with_lowessNd_in_one_dimension {L : ScalarLaws T}
        (xq : T) (xs ys : vector T) (bandwidth : T) (radial : bool)
        (slope intercept : T) (w : matrix T) :
  length ys = length xs ->
  lowess solve xq (column xs) (column ys) bandwidth
  = Ok (slope, intercept, w) ->
  exists beta dist,
    lowessNd solve [xq] (column xs) (column ys) tricube bandwidth radial
    = Ok (beta, dist) /\
    py_index beta 1 = Ok slope /\
    py_index beta 0 = Ok intercept /\
    column dist = lowess_dist xq (column xs).
Proof.
  intros Hy Hrun.
  apply lowess_returns in Hrun
    as (h & b & A & beta & Eh & Ew & Eb & EA & Es & E1 & E0).
  set (dist := norm_axis1 (sub_scalar (column xs) xq)) in *.
  assert (Hd : length dist = length xs).
  { unfold dist, sub_scalar.
    now rewrite norm_axis1_length, length_map, column_length. }
  assert (Edist : lowessNd_dist [xq] (column xs) = Ok dist).
  { unfold lowessNd_dist, as_row. rewrite broadcast_column_cell. simpl.
    unfold dist, sub_scalar, column. now rewrite !map_map. }
  change (lowess_dist xq (column xs)) with (column dist) in *.
  destruct (radius_column_inv _ _ _ Eh) as (k & Hk & ->).
  rewrite kernel_weights_column in Ew. injection Ew as <-.
  set (ws := map (fun a => tricube (div a (nth k dist zero))) dist) in *.
  assert (Hw : length ws = length xs) by (unfold ws; now rewrite length_map).
  destruct (systems_agree_in_one_dimension (length xs) ws xs ys)
    as [Ab AA]; auto; try lia.
  exists beta, dist. split; [|auto].
  apply lowessNd_returns. exists [nth k dist zero], (column ws), b, A.
  split; [exact Edist|].
  split; [unfold nrows; now rewrite column_length in *|].
  split; [apply kernel_weights_column|].
  split; [now rewrite Ab|].
  split; [now rewrite AA|].
  now rewrite Es.
Qed.
End WellShaped.

(** ** The further properties on concrete data *)

Local Open Scope Q_scope.

(** Rank [-2] among five observations: the fourth one gives the radius. *)
Lemma radius_is_distance_of_one_observation_witness :
  radius (column [0; 1; 9; 2; 3]) (-2) = Ok [2] /\
  radius (lowess_dist 0 (Qcol [0; 1; 9; 2; 3]%Z)) (-2) = Ok [2].
Proof.
  assert (Hr : (- Z.of_nat 5 <= -2 < Z.of_nat 5)%Z) by (simpl; lia).
  exact (radius_is_distance_of_one_observation
           [0; 1; 9; 2; 3] 0 (Qcol [0; 1; 9; 2; 3]%Z) (-2)%Z Hr eq_refl).
Defined.

(** [N = 3] and [f = -2] give [r = -6]. *)
Lemma rank_before_start_raises_witness :
  lowessNd gauss_solve [0] (Qcol [0; 1; 2]%Z) (Qcol [0; 1; 2]%Z) tricube (-2) false
  = Raise IndexError /\
  lowess gauss_solve 0 (Qcol [0; 1; 2]%Z) (Qcol [0; 1; 2]%Z) (-2)
  = Raise IndexError.
Proof.
  apply (rank_before_start_raises gauss_solve 3 1).
  - split; [reflexivity | repeat constructor].
  - lia.
  - reflexivity.
  - apply Z.ltb_lt. vm_compute. reflexivity.
Defined.

(** Two calls on the same predictors and query. *)
Lemma lowessNd_distances_depend_on_x_only_witness :
  length [5; 5; 10] = 3%nat /\ [5; 5; 10] = [5; 5; 10].
Proof.
  apply (lowessNd_distances_depend_on_x_only gauss_solve (fun _ _ => Ok [])
           [0; 0] [[3; 4]; [3; 4]; [6; 8]]
           (Qcol [1; 2; 3]%Z) (Qcol [0; 0; 7]%Z) tricube (fun u => u)
           (1 # 2) (1 # 3) true false [0; 0; 0; 0] []);
    vm_compute; reflexivity.
Defined.

(** Two predictor columns against a query of three coordinates. *)
Lemma query_shape_mismatch_raises_witness :
  lowessNd gauss_solve [0; 0; 0] [[3; 4]; [6; 8]] (Qcol [1; 2]%Z)
           tricube (1 # 2) false
  = Raise ValueError.
Proof.
  apply (query_shape_mismatch_raises gauss_solve 2 2).
  - split; [reflexivity | repeat constructor].
  - lia.
  - simpl. lia.
  - simpl. lia.
  - lia.
Defined.

(** Two predictor columns against a query of one coordinate. *)
Lemma one_coordinate_query_is_stretched_witness :
  lowessNd_dist [0] [[3; 4]; [6; 8]] =
  Ok (map (fun row => euclid_norm (map (fun a => a - 0) row))
          [[3; 4]; [6; 8]]).
Proof.
  assert (Hx : has_shape 2 2 [[3; 4]; [6; 8]])
    by (split; [reflexivity | repeat constructor]).
  assert (Hn : (0 < 2)%nat) by lia.
  exact (one_coordinate_query_is_stretched 2 2 0 [[3; 4]; [6; 8]] Hx Hn).
Defined.

(** Two observations with flat responses [1, 2]. *)
Lemma flat_responses_pair_with_every_weight_witness :
  lowessNd_b (as_row [1; 2]) (column [1; 1 # 2]) (hstack_ones [[1]; [2]])
             [0; 1]%nat =
  Ok (map (fun k => np_sum (tabulate 2 (fun i => tabulate 2 (fun j =>
            nth j [1; 2] 0 * nth i [1; 1 # 2] 0 * design [[1]; [2]] i k))))
          [0; 1]%nat).
Proof.
  assert (Hn : (0 < 2)%nat) by lia.
  exact (flat_responses_pair_with_every_weight 2 [[1]; [2]] [1; 2]
           [1; 1 # 2] [0; 1]%nat eq_refl eq_refl eq_refl Hn).
Defined.

(** Three observations but two responses. *)
Lemma response_rows_mismatch_raises_witness :
  lowessNd gauss_solve [0] (Qcol [0; 1; 2]%Z) (Qcol [1; 2]%Z)
           tricube (1 # 2) false
  = Raise ValueError.
Proof.
  apply (response_rows_mismatch_raises gauss_solve 3 1).
  - split; [reflexivity | repeat constructor].
  - lia.
  - reflexivity.
  - split; [apply Z.leb_le | apply Z.ltb_lt]; vm_compute; reflexivity.
  - simpl. lia.
  - simpl. lia.
Defined.

(** Collinear predictors and a solver that fails. *)
Lemma lowessNd_returns_on_well_shaped_input_witness :
  exists beta,
    lowessNd gauss_solve [0; 0] [[3; 4]; [3; 4]; [6; 8]] (column [1; 2; 3])
             tricube (1 # 2) false =
    Ok (beta, map (fun row => euclid_norm (vsub row [0; 0]))
                  [[3; 4]; [3; 4]; [6; 8]]).
Proof.
  apply (lowessNd_returns_on_well_shaped_input gauss_solve 3 2).
  - split; [reflexivity | repeat constructor].
  - lia.
  - reflexivity.
  - reflexivity.
  - split; [apply Z.leb_le | apply Z.ltb_lt]; vm_compute; reflexivity.
Defined.

(** Five predictors on a line, seen from 2 with [f = 4/5]. *)
Lemma lowess_weights_on_well_shaped_input_witness :
  exists b A,
    length b = 2%nat /\ has_shape 2 2 A /\
    lowess gauss_solve 2 (column [0; 1; 2; 3; 4]) (column [0; 1; 2; 3; 4])
           (4 # 5) =
    (beta <- gauss_solve A b ;;
     slope <- py_index beta 1 ;;
     intercept <- py_index beta 0 ;;
     Ok (slope, intercept,
         column (map (fun a => tricube (a / 2)) [2; 1; 0; 1; 2]))).
Proof.
  assert (Hr : (- Z.of_nat 5 <= bandwidth_rank (4 # 5) 5 < Z.of_nat 5)%Z)
    by (split; [apply Z.leb_le | apply Z.ltb_lt]; vm_compute; reflexivity).
  exact (lowess_weights_on_well_shaped_input gauss_solve 5 2
           [0; 1; 2; 3; 4] [0; 1; 2; 3; 4] (4 # 5) eq_refl eq_refl Hr).
Defined.

(** The same five points through both variants. *)
Lemma lowess_agrees_with_lowessNd_in_one_dimension_witness :
  exists beta dist,
    lowessNd gauss_solve [2] (column [0; 1; 2; 3; 4])
             (column [0; 1; 2; 3; 4]) tricube (4 # 5) true
    = Ok (beta, dist) /\
    py_index beta 1 = Ok 1 /\
    py_index beta 0 = Ok 0 /\
    column dist = lowess_dist 2 (column [0; 1; 2; 3; 4]).
Proof.
  apply (lowess_agrees_with_lowessNd_in_one_dimension gauss_solve 2
           [0; 1; 2; 3; 4] [0; 1; 2; 3; 4] (4 # 5) true 1 0
           (column [0; 343 # 512; 512 # 512; 343 # 512; 0])).
  - reflexivity.
  - vm_compute. reflexivity.
Defined.
